(** * bench/pauli_from_list_qinfo.py

    A shallow embedding of the benchmark script and the properties of its
    two functions, [rand_label] and [run_benchmarks].

    The script talks to four things outside itself: Python's module-level
    random generator, the [timeit] timer, the [qiskit.quantum_info]
    classes it measures, and standard output.  Each is modelled as the
    script sees it:

    - the generator as a state with one operation, [random()];
    - the timer as a tape of readings handed out one per call;
    - the library as three fallible functions;
    - standard output as the list of lines written so far.

    Integers are [Z] (Python's are unbounded), floats are IEEE binary64
    values in the representation of [SpecFloat], strings are [string].
    The count [k] handed to [random.choices] goes through the
    interpreter's conversion to a machine-size integer, which refuses a
    count below [- 2 ^ 63] with [OverflowError].  What no machine can
    build (a list or a string of [2 ^ 63] or more elements) is outside
    the model: counts above the range are left unbounded.

    Two facts about the surroundings are part of their interfaces:
    [random()] lies in [0, 1), and the library accepts a well-formed
    batch of Pauli labels.  The timer is arbitrary, except where a
    property says what it needs from it. *)

From Stdlib Require Import ZArith List String Ascii Bool Lia.
From Stdlib Require Import DecimalString.
From Stdlib Require Import Floats.SpecFloat.
Import ListNotations.

Local Open Scope string_scope.
Local Open Scope Z_scope.

(** ** Outcomes, and a state-and-exception monad *)

(** The exceptions that can reach the script: an index out of range when
    subscripting, a count that does not fit a machine-size integer, and
    whatever the benchmarked library raises. *)
Inductive exn : Type :=
| IndexError
| OverflowError
| LibraryError.

Inductive outcome (S A : Type) : Type :=
| Returns (a : A) (s : S)
| Raises (e : exn) (s : S).

Arguments Returns {S A} a s.
Arguments Raises {S A} e s.

Definition M (S A : Type) : Type := S -> outcome S A.

Definition ret {S A} (a : A) : M S A := fun s => Returns a s.

Definition bind {S A B} (c : M S A) (f : A -> M S B) : M S B :=
  fun s =>
    match c s with
    | Returns a s' => f a s'
    | Raises e s' => Raises e s'
    end.

Definition raise {S A} (e : exn) : M S A := fun s => Raises e s.

Notation "x <- c ;; k" := (bind c (fun x => k))
  (at level 61, c at next level, right associativity).
Notation "c ;;; k" := (bind c (fun _ => k))
  (at level 61, right associativity).

(** [for x in xs: acc = body(x, acc)], the accumulator being what the loop
    body updates (here the list [quantum_info_times]). *)
Fixpoint for_each {S A B} (xs : list A) (body : A -> B -> M S B) (acc : B)
  : M S B :=
  match xs with
  | [] => ret acc
  | x :: rest => acc' <- body x acc ;; for_each rest body acc'
  end.

(** [for _ in repeat(None, count): stmt()]. *)
Fixpoint repeat_stmt {S} (count : nat) (stmt : M S unit) : M S unit :=
  match count with
  | O => ret tt
  | S c => stmt ;;; repeat_stmt c stmt
  end.

(** ** Strings *)

(** [s[i]] on a string: a negative index counts from the end, an index
    out of range raises [IndexError], the result is a one-character
    string. *)
Definition getitem {S} (s : string) (i : Z) : M S string :=
  let len := Z.of_nat (String.length s) in
  let j := if i <? 0 then i + len else i in
  if (j <? 0) || (len <=? j) then raise IndexError
  else
    match String.get (Z.to_nat j) s with
    | Some c => ret (String c EmptyString)
    | None => raise IndexError
    end.

(** [sep.join(parts)]. *)
Definition join (sep : string) (parts : list string) : string :=
  String.concat sep parts.

(** [str(z)] for an integer, as an f-string renders it. *)
Definition str_int (z : Z) : string := NilEmpty.string_of_int (Z.to_int z).

(** ** The random generator *)

(** The module-level generator of [random].  [random()] returns the float
    [m / 2^53] for an integer [0 <= m < 2^53] (CPython builds it from 53
    random bits); [random53] returns that [m]. *)
Class RandomSource : Type := {
  rng_state : Type;
  seed : Z -> rng_state;
  random53 : rng_state -> Z * rng_state;
  random53_range : forall s, 0 <= fst (random53 s) < 2 ^ 53
}.

Section Benchmark.
Context {RS : RandomSource}.

Definition random : M rng_state Z :=
  fun s => let (m, s') := random53 s in Returns m s'.

(** [floor(random() * n)] for [n = len(population) + 0.0].  With
    [random() = m / 2^53] the product is [m * n / 2^53]; for the
    four-letter population used here [n] is a power of two, the float
    product is exact, and the floor is this integer quotient. *)
Definition floor_scaled (m : Z) (n : Z) : Z := m * n / 2 ^ 53.

(** [random.choices(population, k=count)] without weights:
    [[population[floor(random() * n)] for i in repeat(None, k)]]. *)
Fixpoint choices_loop (population : string) (count : nat)
  : M rng_state (list string) :=
  match count with
  | O => ret []
  | S c =>
      m <- random ;;
      item <- getitem population
                (floor_scaled m (Z.of_nat (String.length population))) ;;
      rest <- choices_loop population c ;;
      ret (item :: rest)
  end.

(** The least value of C's [ssize_t] (64-bit CPython). *)
Definition ssize_t_min : Z := - 2 ^ 63.

(** [repeat(None, k)] is built before anything is drawn.  It converts
    [k] to [ssize_t]: an integer below the range is refused with
    [OverflowError]; a negative count in the range yields nothing. *)
Definition choices (population : string) (k : Z)
  : M rng_state (list string) :=
  if k <? ssize_t_min then raise OverflowError
  else choices_loop population (Z.to_nat k).

(** [[body for _ in range(n)]]. *)
Fixpoint comprehension {A} (count : nat) (body : M rng_state A)
  : M rng_state (list A) :=
  match count with
  | O => ret []
  | S c => x <- body ;; rest <- comprehension c body ;; ret (x :: rest)
  end.

(** [def rand_label(k, n):
       return ["".join(random.choices("IXYZ", k=k)) for _ in range(n)]] *)
Definition rand_label (k n : Z) : M rng_state (list string) :=
  comprehension (Z.to_nat n)
    (chars <- choices "IXYZ" k ;; ret (join "" chars)).

(** ** Floats *)

(** A Python float is an IEEE binary64 value. *)
Definition float : Type := spec_float.
Definition prec : Z := 53.
Definition emax : Z := 1024.

Definition fsub : float -> float -> float := SFsub prec emax.
Definition fmul : float -> float -> float := SFmul prec emax.
Definition fdiv : float -> float -> float := SFdiv prec emax.

(** The conversion of an integer operand in [float * int] and
    [float / int]: the nearest float (exact for the three integers the
    script converts: 1000, 20 and 1). *)
Definition float_of_int (z : Z) : float := binary_normalize prec emax z 0 false.

(** ** The benchmarked library *)

(** What [qiskit.quantum_info] accepts without raising: a batch that is
    not empty, of labels of one positive length, written in the letters
    I, X, Y and Z. *)
Definition pauli_char (c : ascii) : bool :=
  (Ascii.eqb c "I" || Ascii.eqb c "X" || Ascii.eqb c "Y" || Ascii.eqb c "Z")%char.

Fixpoint all_chars (p : ascii -> bool) (s : string) : bool :=
  match s with
  | EmptyString => true
  | String c rest => p c && all_chars p rest
  end.

Definition pauli_label (k : nat) (s : string) : bool :=
  Nat.eqb (String.length s) k && all_chars pauli_char s.

Definition pauli_batch (labels : list string) : bool :=
  match labels with
  | [] => false
  | l :: _ =>
      Nat.ltb 0 (String.length l) && forallb (pauli_label (String.length l)) labels
  end.

(** The three entry points the timed statement uses; [None] stands for
    an exception raised inside the library.  The last field is the one
    fact about the library the properties below rely on: a batch that
    satisfies [pauli_batch] goes through all three without an exception. *)
Class QuantumInfo : Type := {
  pauli_list : Type;
  sparse_pauli_op : Type;
  PauliList : list string -> option pauli_list;
  SparsePauliOp : pauli_list -> option sparse_pauli_op;
  simplify : sparse_pauli_op -> option sparse_pauli_op;
  accepts_pauli_batch :
    forall labels, pauli_batch labels = true ->
    exists p o o',
      PauliList labels = Some p /\ SparsePauliOp p = Some o /\ simplify o = Some o'
}.

(** ** The process: generator, timer, library calls, standard output *)

Inductive event : Type :=
| Timer (t : float)                      (* a reading of [perf_counter] *)
| CallPauliList (labels : list string)   (* [PauliList(labels)] entered *)
| CallSparsePauliOp                      (* [SparsePauliOp(...)] entered *)
| CallSimplify                           (* [.simplify()] entered *)
| Print (line : string).                 (* [print(line)]: the line, then a newline *)

Record World : Type := {
  rng : rng_state;        (* state of the module-level generator *)
  ticks : nat;            (* readings of the timer taken so far *)
  trace : list event      (* what happened, oldest first *)
}.

Definition log (e : event) : M World unit :=
  fun w => Returns tt {| rng := rng w; ticks := ticks w; trace := trace w ++ [e] |}.

(** Run a computation of the generator inside the process. *)
Definition with_rng {A} (c : M rng_state A) : M World A :=
  fun w =>
    match c (rng w) with
    | Returns a s => Returns a {| rng := s; ticks := ticks w; trace := trace w |}
    | Raises e s => Raises e {| rng := s; ticks := ticks w; trace := trace w |}
    end.

Context {QI : QuantumInfo}.

(** The readings [time.perf_counter()] returns, in the order of the
    calls, and [repr] of a float (what an f-string writes for it). *)
Variable perf_counter : nat -> float.
Variable float_repr : float -> string.

Definition timer : M World float :=
  fun w =>
    let t := perf_counter (ticks w) in
    Returns t {| rng := rng w; ticks := S (ticks w); trace := trace w ++ [Timer t] |}.

Definition print (line : string) : M World unit := log (Print line).

Definition library {A} (e : event) (r : option A) : M World A :=
  log e ;;;
  match r with
  | Some a => ret a
  | None => raise LibraryError
  end.

(** [timeit(stmt, number=number)]: one reading of the timer, [number]
    calls of [stmt], a second reading, and their difference. *)
Definition timeit (stmt : M World unit) (number : Z) : M World float :=
  t0 <- timer ;;
  repeat_stmt (Z.to_nat number) stmt ;;;
  t1 <- timer ;;
  ret (fsub t1 t0).

(** [lambda: SparsePauliOp(PauliList(label)).simplify()] *)
Definition stmt (label : list string) : M World unit :=
  p <- library (CallPauliList label) (PauliList label) ;;
  o <- library CallSparsePauliOp (SparsePauliOp p) ;;
  _ <- library CallSimplify (simplify o) ;;
  ret tt.

(** The body of the inner loop of [run_benchmarks], for one [k] and [n]. *)
Definition trial (k n : Z) (quantum_info_times : list float)
  : M World (list float) :=
  label <- with_rng (rand_label k n) ;;
  let number := 20 in
  let number := if 10000 <=? n then 1 else number in
  t <- timeit (stmt label) number ;;
  let t := fdiv (fmul t (float_of_int 1000)) (float_of_int number) in
  let quantum_info_times := (quantum_info_times ++ [t])%list in
  print ("k=" ++ str_int k ++ ", n=" ++ str_int n ++ ", " ++ float_repr t ++ " ms") ;;;
  ret quantum_info_times.

(** [def run_benchmarks(): ...] *)
Definition run_benchmarks : M World (list float) :=
  let quantum_info_times := [] in
  for_each [10; 100]
    (fun k quantum_info_times =>
       for_each [10; 100; 1000; 5000; 10000; 100000]
         (fun n quantum_info_times => trial k n quantum_info_times)
         quantum_info_times)
    quantum_info_times.

(** The process as the script starts it: [random.seed(123)] has run,
    nothing else has happened. *)
Definition start : World := {| rng := seed 123; ticks := 0; trace := [] |}.

End Benchmark.

(** ** Reading a trace *)

(** The lines written to standard output, oldest first. *)
Fixpoint printed (tr : list event) : list string :=
  match tr with
  | [] => []
  | Print line :: rest => line :: printed rest
  | _ :: rest => printed rest
  end.

(** The batches handed to the constructor [PauliList], one entry per
    call, oldest first. *)
Fixpoint constructed (tr : list event) : list (list string) :=
  match tr with
  | [] => []
  | CallPauliList labels :: rest => labels :: constructed rest
  | _ :: rest => constructed rest
  end.

(** What one execution of the timed statement leaves in the trace. *)
Definition statement_events (label : list string) : list event :=
  [CallPauliList label; CallSparsePauliOp; CallSimplify].

Fixpoint repeated_events (count : nat) (label : list string) : list event :=
  match count with
  | O => []
  | S c => statement_events label ++ repeated_events c label
  end.

(** One character of the alphabet, as a one-character string. *)
Definition pauli_item (x : string) : Prop :=
  exists c, x = String c EmptyString /\ pauli_char c = true.

(** A label as [rand_label k _] builds it. *)
Definition label_of_length (k : Z) (l : string) : Prop :=
  String.length l = Z.to_nat k /\ all_chars pauli_char l = true.

(** ** What a run is expected to do *)

Section Plan.
Context {RS : RandomSource}.
Variable perf_counter : nat -> float.
Variable float_repr : float -> string.

(** The batch [rand_label k n] returns from generator state [s], and the
    state it leaves. *)
Definition labels_of (k n : Z) (s : rng_state) : list string :=
  match rand_label k n s with
  | Returns labels _ => labels
  | Raises _ _ => []
  end.

Definition rng_after (k n : Z) (s : rng_state) : rng_state :=
  match rand_label k n s with
  | Returns _ s' => s'
  | Raises _ s' => s'
  end.

(** The text of the line printed for one trial. *)
Definition line (k n : Z) (t : float) : string :=
  "k=" ++ str_int k ++ ", n=" ++ str_int n ++ ", " ++ float_repr t ++ " ms".

(** One trial as seen from outside: its grid position, the batch it
    generated, the number of repetitions it asked for, and the two
    readings of the timer. *)
Record sample : Type := {
  at_k : Z;
  at_n : Z;
  batch : list string;
  number_of : Z;
  t_start : float;
  t_stop : float
}.

Definition reported (x : sample) : float :=
  fdiv (fmul (fsub (t_stop x) (t_start x)) (float_of_int 1000))
       (float_of_int (number_of x)).

Definition sample_events (x : sample) : list event :=
  Timer (t_start x)
    :: repeated_events (Z.to_nat (number_of x)) (batch x)
    ++ [Timer (t_stop x); Print (line (at_k x) (at_n x) (reported x))].

(** The trials of a run over [grid], from generator state [s], the timer
    having been read [tick] times. *)
Fixpoint plan (grid : list (Z * Z)) (s : rng_state) (tick : nat) : list sample :=
  match grid with
  | [] => []
  | (k, n) :: rest =>
      {| at_k := k; at_n := n;
         batch := labels_of k n s;
         number_of := if 10000 <=? n then 1 else 20;
         t_start := perf_counter tick;
         t_stop := perf_counter (S tick) |}
        :: plan rest (rng_after k n s) (S (S tick))
  end.

(** The trial that starts in world [w]. *)
Definition first_sample (k n : Z) (w : World) : sample :=
  {| at_k := k; at_n := n;
     batch := labels_of k n (rng w);
     number_of := if 10000 <=? n then 1 else 20;
     t_start := perf_counter (ticks w);
     t_stop := perf_counter (S (ticks w)) |}.

Fixpoint rng_at_end (grid : list (Z * Z)) (s : rng_state) : rng_state :=
  match grid with
  | [] => s
  | (k, n) :: rest => rng_at_end rest (rng_after k n s)
  end.

(** The batches alone: they do not involve the timer. *)
Fixpoint grid_batches (grid : list (Z * Z)) (s : rng_state) : list (list string) :=
  match grid with
  | [] => []
  | (k, n) :: rest => labels_of k n s :: grid_batches rest (rng_after k n s)
  end.
End Plan.

(** The grid holds positive sizes only. *)
Definition positive_pair (p : Z * Z) : Prop := 0 < fst p /\ 0 < snd p.

(** The grid of [run_benchmarks], in the order of its two loops. *)
Definition grid : list (Z * Z) :=
  [(10, 10); (10, 100); (10, 1000); (10, 5000); (10, 10000); (10, 100000);
   (100, 10); (100, 100); (100, 1000); (100, 5000); (100, 10000); (100, 100000)].

(** ** The generator as a stream of draws *)

Section Draws.
Context {RS : RandomSource}.

(** The generator after [count] calls of [random()]. *)
Fixpoint after_draws (count : nat) (s : rng_state) : rng_state :=
  match count with
  | O => s
  | S c => after_draws c (snd (random53 s))
  end.

(** What the next [count] calls of [random()] return, in order. *)
Fixpoint draws (count : nat) (s : rng_state) : list Z :=
  match count with
  | O => []
  | S c => fst (random53 s) :: draws c (snd (random53 s))
  end.
End Draws.

(** The letter a value [m / 2^53] of [random()] selects: one quarter of
    the range for each of I, X, Y, Z. *)
Definition letter (m : Z) : ascii :=
  if m <? 2 ^ 51 then "I"%char
  else if m <? 2 ^ 52 then "X"%char
  else if m <? 3 * 2 ^ 51 then "Y"%char
  else "Z"%char.

(** The calls of [random()] a run over [g] makes. *)
Fixpoint draws_needed (g : list (Z * Z)) : Z :=
  match g with
  | [] => 0
  | (k, n) :: rest => k * n + draws_needed rest
  end.

(** ** Sizes of floats *)

(** A non-negative mantissa [m] with exponent [e] denotes a value below
    [2 ^ B], and the exponent leaves room for a 53-bit mantissa. *)
Definition fits (B m e : Z) : Prop := e <= B - 53 /\ Zdigits2 m + e <= B.

(** A float that is [+0] or positive and finite, below [2 ^ B]. *)
Definition small (B : Z) (x : float) : Prop :=
  match x with
  | S754_zero false => True
  | S754_finite false m e => fits B (Z.pos m) e
  | _ => False
  end.

(** A reading of the timer: a binary64 value that is [+0] or positive,
    and below [2 ^ 1000] seconds. *)
Definition reading_ok (x : float) : bool :=
  valid_binary prec emax x
  && match x with
     | S754_zero false => true
     | S754_finite false m e => Zdigits2 (Z.pos m) + e <=? 1000
     | _ => false
     end.

(** Zero, or finite with the sign bit clear. *)
Definition nonneg_finite (x : float) : bool :=
  match x with
  | S754_zero _ => true
  | S754_finite s _ _ => negb s
  | _ => false
  end.

(** Zero or finite: neither an infinity nor a NaN. *)
Definition is_finite (x : float) : bool :=
  match x with
  | S754_zero _ | S754_finite _ _ _ => true
  | _ => false
  end.

(** ** Concrete surroundings, to run the model *)

(** A linear congruential generator over 64 bits whose top 53 bits are
    the output.  CPython's generator is another [RandomSource]; nothing
    below depends on which one is used. *)
Definition lcg_next (s : Z) : Z :=
  (6364136223846793005 * s + 1442695040888963407) mod 2 ^ 64.

Definition lcg_random53 (s : Z) : Z * Z := (lcg_next s / 2 ^ 11, lcg_next s).

Lemma lcg_random53_range (s : Z) : 0 <= fst (lcg_random53 s) < 2 ^ 53.
Proof.
  unfold lcg_random53, lcg_next; cbn [fst].
  assert (H : 0 <= (6364136223846793005 * s + 1442695040888963407) mod 2 ^ 64 < 2 ^ 64)
    by (apply Z.mod_pos_bound; lia).
  split.
  - apply Z.div_pos; lia.
  - apply Z.div_lt_upper_bound; lia.
Qed.

Definition lcg : RandomSource := {|
  rng_state := Z;
  seed := fun z => z mod 2 ^ 64;
  random53 := lcg_random53;
  random53_range := lcg_random53_range
|}.

(** A library that checks its input the way [pauli_batch] describes and
    otherwise does nothing. *)
Definition checked_PauliList (labels : list string) : option (list string) :=
  if pauli_batch labels then Some labels else None.

Lemma checked_accepts (labels : list string) :
  pauli_batch labels = true ->
  exists p o o' : list string,
    checked_PauliList labels = Some p /\ Some p = Some o /\ Some o = Some o'.
Proof.
  intros H. exists labels, labels, labels.
  unfold checked_PauliList. rewrite H. auto.
Qed.

Definition checked_library : QuantumInfo := {|
  pauli_list := list string;
  sparse_pauli_op := list string;
  PauliList := checked_PauliList;
  SparsePauliOp := fun p => Some p;
  simplify := fun o => Some o;
  accepts_pauli_batch := checked_accepts
|}.

(** A timer that advances by one second per reading. *)
Definition steady_clock (i : nat) : float := float_of_int (Z.of_nat i).

(** A rendering of a float that shows its sign, mantissa and exponent. *)
Definition bits_repr (x : float) : string :=
  let sign (s : bool) := if s then "-" else "" in
  match x with
  | S754_zero s => sign s ++ "0.0"
  | S754_infinity s => sign s ++ "inf"
  | S754_nan => "nan"
  | S754_finite s m e => sign s ++ str_int (Zpos m) ++ "*2**" ++ str_int e
  end.

(** * Properties *)

(** ** Binary64 arithmetic on the values the script computes *)

Lemma digits2_pos_size (p : positive) : digits2_pos p = Pos.size p.
Proof. induction p; cbn; congruence. Qed.

Lemma digits_pos_bounds (p : positive) :
  2 ^ (Zdigits2 (Zpos p) - 1) <= Zpos p < 2 ^ Zdigits2 (Zpos p).
Proof.
  cbn [Zdigits2]. rewrite digits2_pos_size. split.
  - pose proof (Pos.size_le p) as H.
    apply Pos2Z.pos_le_pos in H. rewrite Pos2Z.inj_pow in H.
    set (d := Z.pos (Pos.size p)) in *.
    assert (Hd : 0 < d) by apply Pos2Z.is_pos.
    replace d with (1 + (d - 1)) in H at 1 by lia.
    rewrite Z.pow_add_r in H by lia. change (2 ^ 1) with 2 in H. lia.
  - pose proof (Pos.size_gt p) as H.
    apply Pos2Z.pos_lt_pos in H. now rewrite Pos2Z.inj_pow in H.
Qed.

Lemma digits_nonneg (m : Z) : 0 <= Zdigits2 m.
Proof. destruct m; cbn; lia. Qed.

Lemma digits_gt (m : Z) : 0 <= m -> m < 2 ^ Zdigits2 m.
Proof.
  destruct m as [| p | p]; intros H; [reflexivity | | lia].
  apply digits_pos_bounds.
Qed.

Lemma digits_le (m k : Z) : 0 <= m -> 0 <= k -> m < 2 ^ k -> Zdigits2 m <= k.
Proof.
  destruct m as [| p | p]; intros Hm Hk H; [exact Hk | | lia].
  pose proof (digits_pos_bounds p) as [Hlo _].
  assert (Hlt : 2 ^ (Zdigits2 (Z.pos p) - 1) < 2 ^ k) by lia.
  apply Z.pow_lt_mono_r_iff in Hlt; lia.
Qed.

Lemma shr_1_m (mrs : shr_record) :
  0 <= shr_m mrs -> shr_m (shr_1 mrs) = shr_m mrs / 2.
Proof.
  destruct mrs as [m r s]. cbn [shr_m]. intros Hm.
  destruct m as [| [p | p |] | p]; cbn [shr_1 shr_m]; try lia; try reflexivity.
  - rewrite (Pos2Z.inj_xI p). apply (Z.div_unique _ _ _ 1); lia.
  - rewrite (Pos2Z.inj_xO p). apply (Z.div_unique _ _ _ 0); lia.
Qed.

Lemma shr_iter_m (p : positive) :
  forall mrs, 0 <= shr_m mrs ->
    shr_m (iter_pos shr_1 p mrs) = shr_m mrs / 2 ^ Zpos p.
Proof.
  induction p as [p IH | p IH |]; intros mrs Hm; cbn [iter_pos].
  - assert (H1 : 0 <= shr_m (shr_1 mrs))
      by (rewrite shr_1_m by exact Hm; apply Z.div_pos; lia).
    assert (H2 : 0 <= shr_m (iter_pos shr_1 p (shr_1 mrs)))
      by (rewrite IH by exact H1; apply Z.div_pos; [exact H1 | apply Z.pow_pos_nonneg; lia]).
    rewrite IH by exact H2. rewrite IH by exact H1. rewrite shr_1_m by exact Hm.
    assert (Hp : 0 < 2 ^ Zpos p) by (apply Z.pow_pos_nonneg; lia).
    rewrite !Z.div_div by lia.
    f_equal. rewrite (Pos2Z.inj_xI p).
    replace (2 * Z.pos p + 1) with (1 + Z.pos p + Z.pos p) by lia.
    rewrite !Z.pow_add_r by lia. change (2 ^ 1) with 2. ring.
  - assert (H2 : 0 <= shr_m (iter_pos shr_1 p mrs))
      by (rewrite IH by exact Hm; apply Z.div_pos; [exact Hm | apply Z.pow_pos_nonneg; lia]).
    rewrite IH by exact H2. rewrite IH by exact Hm.
    assert (Hp : 0 < 2 ^ Zpos p) by (apply Z.pow_pos_nonneg; lia).
    rewrite !Z.div_div by lia.
    f_equal. rewrite (Pos2Z.inj_xO p).
    replace (2 * Z.pos p) with (Z.pos p + Z.pos p) by lia.
    rewrite Z.pow_add_r by lia. ring.
  - rewrite shr_1_m by exact Hm. reflexivity.
Qed.


Lemma fexp_binary64 (x : Z) : fexp prec emax x = Z.max (x - 53) (-1074).
Proof. reflexivity. Qed.

Lemma shr_m_of_loc (m : Z) (l : location) : shr_m (shr_record_of_loc m l) = m.
Proof. destruct l as [| []]; reflexivity. Qed.

Lemma shr_fexp_fits (B m e : Z) (l : location) :
  0 <= m -> -1021 <= B -> fits B m e ->
  0 <= shr_m (fst (shr_fexp prec emax m e l))
  /\ fits B (shr_m (fst (shr_fexp prec emax m e l)))
         (snd (shr_fexp prec emax m e l)).
Proof.
  intros Hm HB [He Hd]. unfold shr_fexp, shr.
  rewrite fexp_binary64.
  destruct (Z.max (Zdigits2 m + e - 53) (-1074) - e) as [| p | p] eqn:En;
    cbn [fst snd]; rewrite ?shr_m_of_loc; try (split; [exact Hm | split; assumption]).
  rewrite shr_iter_m by (rewrite shr_m_of_loc; exact Hm).
  rewrite shr_m_of_loc.
  assert (Hp : 0 < 2 ^ Z.pos p) by (apply Z.pow_pos_nonneg; lia).
  pose proof (digits_gt m Hm) as Hlt. pose proof (digits_nonneg m) as Hdn.
  split; [apply Z.div_pos; lia |]. split; [lia |].
  destruct (Z.le_gt_cases (Zdigits2 m) (Z.pos p)) as [Hle | Hgt].
  - assert (H2 : 2 ^ Zdigits2 m <= 2 ^ Z.pos p) by (apply Z.pow_le_mono_r; lia).
    rewrite Z.div_small by lia. cbn [Zdigits2]. lia.
  - assert (Hq : m / 2 ^ Z.pos p < 2 ^ (Zdigits2 m - Z.pos p)).
    { apply Z.div_lt_upper_bound; [exact Hp |].
      rewrite <- Z.pow_add_r by lia.
      replace (Z.pos p + (Zdigits2 m - Z.pos p)) with (Zdigits2 m) by lia.
      exact Hlt. }
    apply digits_le in Hq; [lia | apply Z.div_pos; lia | lia].
Qed.

Lemma round_nearest_even_bounds (m : Z) (l : location) :
  m <= round_nearest_even m l <= m + 1.
Proof.
  destruct l as [| []]; cbn [round_nearest_even]; try lia.
  destruct (Z.even m); lia.
Qed.

Lemma digits_succ (m r : Z) :
  0 <= m -> m <= r <= m + 1 -> Zdigits2 r <= Zdigits2 m + 1.
Proof.
  intros Hm Hr. pose proof (digits_gt m Hm) as Hlt.
  pose proof (digits_nonneg m) as Hdn.
  apply digits_le; [lia | lia |].
  rewrite Z.pow_add_r by lia. change (2 ^ 1) with 2. lia.
Qed.

(** Rounding a non-negative mantissa that fits [B <= 1023] gives a zero or
    a finite float of the same sign that fits [B + 1]: it does not
    overflow. *)
Lemma binary_round_aux_fits (B : Z) (sx : bool) (mx ex : Z) (lx : location) :
  0 <= mx -> -1021 <= B <= 1023 -> fits B mx ex ->
  binary_round_aux prec emax sx mx ex lx = S754_zero sx
  \/ exists m e,
       binary_round_aux prec emax sx mx ex lx = S754_finite sx m e
       /\ fits (B + 1) (Z.pos m) e.
Proof.
  intros Hm HB Hfit. unfold binary_round_aux.
  destruct (shr_fexp_fits B mx ex lx Hm (proj1 HB) Hfit) as (Hm1 & He1 & Hd1).
  destruct (shr_fexp prec emax mx ex lx) as [mrs1 e1]. cbn [fst snd] in *.
  pose proof (round_nearest_even_bounds (shr_m mrs1) (loc_of_shr_record mrs1)) as Hr.
  set (mr := round_nearest_even (shr_m mrs1) (loc_of_shr_record mrs1)) in *.
  assert (Hfit2 : fits (B + 1) mr e1).
  { split; [lia |]. pose proof (digits_succ (shr_m mrs1) mr Hm1 Hr). lia. }
  destruct (shr_fexp_fits (B + 1) mr e1 loc_Exact ltac:(lia) ltac:(lia) Hfit2)
    as (Hm2 & He2 & Hd2).
  destruct (shr_fexp prec emax mr e1 loc_Exact) as [mrs2 e2]. cbn [fst snd] in *.
  destruct (shr_m mrs2) as [| m | m]; [now left | | lia].
  right. exists m, e2.
  replace (e2 <=? emax - prec) with true
    by (symmetry; apply Z.leb_le; unfold emax, prec; lia).
  split; [reflexivity | split; assumption].
Qed.

Lemma small_round (B mx ex : Z) (lx : location) :
  0 <= mx -> -1021 <= B <= 1023 -> fits B mx ex ->
  small (B + 1) (binary_round_aux prec emax false mx ex lx).
Proof.
  intros Hm HB Hfit.
  destruct (binary_round_aux_fits B false mx ex lx Hm HB Hfit)
    as [-> | (m & e & -> & Hf)]; [exact I | exact Hf].
Qed.

Lemma digits_mul (a b : Z) :
  0 <= a -> 0 <= b -> Zdigits2 (a * b) <= Zdigits2 a + Zdigits2 b.
Proof.
  intros Ha Hb.
  pose proof (digits_gt a Ha). pose proof (digits_gt b Hb).
  pose proof (digits_nonneg a). pose proof (digits_nonneg b).
  apply digits_le; [nia | lia |].
  rewrite Z.pow_add_r by lia. nia.
Qed.

Lemma fmul_small (B1 B2 : Z) (x y : float) :
  small B1 x -> small B2 y -> -1021 <= B1 + B2 <= 1023 ->
  small (B1 + B2 + 1) (fmul x y).
Proof.
  intros Hx Hy HB.
  destruct x as [[] | [] | | [] mx ex]; try contradiction;
    destruct y as [[] | [] | | [] my ey]; try contradiction; try exact I.
  unfold fmul. cbn [SFmul xorb]. apply small_round; [lia | exact HB |].
  destruct Hx as [Hex Hdx], Hy as [Hey Hdy]. split; [lia |].
  rewrite Pos2Z.inj_mul.
  pose proof (digits_mul (Z.pos mx) (Z.pos my) ltac:(lia) ltac:(lia)). lia.
Qed.

Lemma div_eucl_fst (a b : Z) : fst (Z.div_eucl a b) = a / b.
Proof. unfold Z.div. now destruct (Z.div_eucl a b). Qed.

(** Division by a float that is at least one (and normal). *)
Lemma fdiv_small (B : Z) (x : float) (my : positive) (ey : Z) :
  small B x -> Zdigits2 (Z.pos my) = 53 -> -52 <= ey ->
  -1021 <= B <= 1023 ->
  small (B + 1) (fdiv x (S754_finite false my ey)).
Proof.
  intros Hx Hdy Hey HB.
  destruct x as [[] | [] | | [] m e]; try contradiction; [exact I |].
  destruct Hx as [He Hd].
  unfold fdiv. cbn [SFdiv xorb]. unfold SFdiv_core_binary.
  rewrite Hdy, fexp_binary64.
  set (d1 := Zdigits2 (Z.pos m)) in *.
  set (e' := Z.min (Z.max (d1 + e - (53 + ey) - 53) (-1074)) (e - ey)).
  set (s := e - ey - e').
  set (m' := match s with
             | 0 => Z.pos m
             | Z.pos _ => Z.shiftl (Z.pos m) s
             | Z.neg _ => 0
             end).
  assert (Hs : 0 <= s) by (unfold s, e'; lia).
  assert (Hm' : m' = Z.pos m * 2 ^ s).
  { unfold m'. destruct s as [| p | p]; [cbn; lia | | lia].
    apply Z.shiftl_mul_pow2. lia. }
  pose proof (div_eucl_fst m' (Z.pos my)) as Hq.
  destruct (Z.div_eucl m' (Z.pos my)) as [q r]. cbn [fst] in Hq.
  assert (Hs2 : 0 < 2 ^ s) by (apply Z.pow_pos_nonneg; lia).
  assert (Hm'0 : 0 <= m') by nia.
  assert (Hq0 : 0 <= q) by (rewrite Hq; apply Z.div_pos; lia).
  apply small_round; [exact Hq0 | exact HB |].
  split; [unfold e'; lia |].
  pose proof (digits_pos_bounds my) as [Hmy _]. rewrite Hdy in Hmy.
  change (2 ^ (53 - 1)) with (2 ^ 52) in Hmy.
  pose proof (digits_gt (Z.pos m) ltac:(lia)) as Hm. fold d1 in Hm.
  assert (Hd1 : 0 <= d1) by apply digits_nonneg.
  assert (Hlt : m' < 2 ^ (d1 + s)) by (rewrite Z.pow_add_r by lia; nia).
  destruct (Z.le_gt_cases (d1 + s) 52) as [Hle | Hgt].
  - assert (H2 : 2 ^ (d1 + s) <= 2 ^ 52) by (apply Z.pow_le_mono_r; lia).
    rewrite Hq, Z.div_small by lia. cbn [Zdigits2]. unfold e'. lia.
  - assert (Hq' : q < 2 ^ (d1 + s - 52)).
    { rewrite Hq. apply Z.div_lt_upper_bound; [lia |].
      apply Z.lt_le_trans with (2 ^ 52 * 2 ^ (d1 + s - 52)).
      - rewrite <- Z.pow_add_r by lia.
        replace (52 + (d1 + s - 52)) with (d1 + s) by lia. exact Hlt.
      - apply Z.mul_le_mono_nonneg_r; [apply Z.pow_nonneg; lia | exact Hmy]. }
    apply digits_le in Hq'; [| exact Hq0 | lia].
    unfold s in Hq'. lia.
Qed.

Lemma iter_xO_pow (m d : positive) :
  Z.pos (Pos.iter xO m d) = Z.pos m * 2 ^ Z.pos d.
Proof.
  rewrite <- Z.shiftl_mul_pow2 by lia. cbn [Z.shiftl].
  apply (Pos.iter_swap_gen _ _ Z.pos xO (Z.mul 2)). intros a. reflexivity.
Qed.

Lemma shl_align_down (m : positive) (e ez : Z) :
  ez <= e -> Z.pos (fst (shl_align m e ez)) = Z.pos m * 2 ^ (e - ez).
Proof.
  intros Hle. unfold shl_align.
  destruct (ez - e) as [| d | d] eqn:Ed; cbn [fst]; try lia.
  - replace (e - ez) with 0 by lia. lia.
  - rewrite iter_xO_pow. replace (e - ez) with (Z.pos d) by lia. reflexivity.
Qed.

Lemma shl_align_fits (B : Z) (m : positive) (e t : Z) :
  fits B (Z.pos m) e ->
  fits B (Z.pos (fst (shl_align m e t))) (snd (shl_align m e t)).
Proof.
  intros [He Hd]. unfold shl_align.
  destruct (t - e) as [| d | d] eqn:Ed; cbn [fst snd]; try (split; assumption).
  split; [lia |]. rewrite iter_xO_pow.
  pose proof (digits_gt (Z.pos m) ltac:(lia)) as Hm.
  pose proof (digits_nonneg (Z.pos m)) as Hn.
  assert (Hle : Zdigits2 (Z.pos m * 2 ^ Z.pos d) <= Zdigits2 (Z.pos m) + Z.pos d).
  { assert (0 < 2 ^ Z.pos d) by (apply Z.pow_pos_nonneg; lia).
    apply digits_le; [nia | lia |]. rewrite Z.pow_add_r by lia. nia. }
  lia.
Qed.

(** What validity says about a finite float. *)
Lemma valid_finite (s : bool) (m : positive) (e : Z) :
  valid_binary prec emax (S754_finite s m e) = true ->
  Z.max (Zdigits2 (Z.pos m) + e - 53) (-1074) = e.
Proof.
  cbn [valid_binary]. unfold bounded, canonical_mantissa.
  rewrite andb_true_iff, fexp_binary64. intros [H _].
  now apply Z.eqb_eq in H.
Qed.

(** The order on valid positive floats is the order on their values. *)
Lemma leb_finite (m0 m1 : positive) (e0 e1 : Z) :
  valid_binary prec emax (S754_finite false m0 e0) = true ->
  valid_binary prec emax (S754_finite false m1 e1) = true ->
  SFleb (S754_finite false m0 e0) (S754_finite false m1 e1) = true ->
  Z.pos m0 * 2 ^ (e0 - Z.min e1 e0) <= Z.pos m1 * 2 ^ (e1 - Z.min e1 e0).
Proof.
  intros V0 V1 Hle. apply valid_finite in V0, V1.
  unfold SFleb in Hle. cbn [SFcompare] in Hle.
  destruct (Z.compare_spec e0 e1) as [-> | Hlt | Hgt]; [| | discriminate].
  - rewrite Z.min_id, Z.sub_diag. change (2 ^ 0) with 1.
    change (Pos.compare_cont Eq m0 m1) with (Pos.compare m0 m1) in Hle.
    destruct (Pos.compare_spec m0 m1); [lia | lia | discriminate].
  - replace (Z.min e1 e0) with e0 by lia. rewrite Z.sub_diag.
    change (2 ^ 0) with 1.
    assert (Hd1 : Zdigits2 (Z.pos m1) = 53) by lia.
    assert (Hd0 : Zdigits2 (Z.pos m0) <= 53) by lia.
    pose proof (digits_pos_bounds m1) as [Hlo _]. rewrite Hd1 in Hlo.
    change (2 ^ (53 - 1)) with (2 ^ 52) in Hlo.
    pose proof (digits_gt (Z.pos m0) ltac:(lia)) as Hhi.
    assert (H53 : 2 ^ Zdigits2 (Z.pos m0) <= 2 ^ 53)
      by (apply Z.pow_le_mono_r; lia).
    assert (H2 : 2 ^ 1 <= 2 ^ (e1 - e0)) by (apply Z.pow_le_mono_r; lia).
    change (2 ^ 1) with 2 in H2.
    change (2 ^ 53) with (2 * 2 ^ 52) in H53.
    nia.
Qed.

Lemma reading_ok_small (x : float) : reading_ok x = true -> small 1000 x.
Proof.
  unfold reading_ok. rewrite andb_true_iff. intros [V H].
  destruct x as [[] | [] | | [] m e]; try discriminate; [exact I |].
  apply valid_finite in V. apply Z.leb_le in H. split; lia.
Qed.

(** The difference of two readings, the later minus the earlier. *)
Lemma fsub_small (t0 t1 : float) :
  reading_ok t0 = true -> reading_ok t1 = true -> SFleb t0 t1 = true ->
  small 1001 (fsub t1 t0).
Proof.
  intros H0 H1 Hle.
  pose proof (reading_ok_small t0 H0) as S0.
  pose proof (reading_ok_small t1 H1) as S1.
  unfold reading_ok in H0, H1. apply andb_true_iff in H0, H1.
  destruct H0 as [V0 _], H1 as [V1 _].
  destruct t0 as [[] | [] | | [] m0 e0]; try contradiction;
    destruct t1 as [[] | [] | | [] m1 e1]; try contradiction;
    try discriminate; try exact I.
  - destruct S1 as [He Hd]. split; lia.
  - pose proof (leb_finite m0 m1 e0 e1 V0 V1 Hle) as Hord.
    unfold fsub. cbn [SFsub cond_Zopp].
    rewrite !shl_align_down by lia.
    set (ez := Z.min e1 e0) in *.
    set (M1 := Z.pos m1 * 2 ^ (e1 - ez)) in *.
    set (M0 := Z.pos m0 * 2 ^ (e0 - ez)) in *.
    destruct S1 as [He1 Hd1].
    assert (Hp : 0 < 2 ^ (e1 - ez)) by (apply Z.pow_pos_nonneg; lia).
    pose proof (digits_gt (Z.pos m1) ltac:(lia)) as Hm1.
    pose proof (digits_nonneg (Z.pos m1)) as Hn1.
    assert (HM1 : M1 < 2 ^ (Zdigits2 (Z.pos m1) + (e1 - ez)))
      by (rewrite Z.pow_add_r by lia; unfold M1; nia).
    destruct (M1 - M0) as [| d | d] eqn:Ed; cbn [binary_normalize];
      [exact I | | lia].
    unfold binary_round.
    assert (Hfit : fits 1000 (Z.pos d) ez).
    { split; [lia |].
      assert (Hdd : Zdigits2 (Z.pos d) <= Zdigits2 (Z.pos m1) + (e1 - ez))
        by (apply digits_le; lia).
      lia. }
    pose proof (shl_align_fits 1000 d ez
                  (fexp prec emax (Z.pos (digits2_pos d) + ez)) Hfit) as Hfit'.
    destruct (shl_align d ez (fexp prec emax (Z.pos (digits2_pos d) + ez)))
      as [mz ez']. cbn [fst snd] in Hfit'.
    apply (small_round 1000); [lia | lia | exact Hfit'].
Qed.

Lemma small_nonneg_finite (B : Z) (x : float) :
  small B x -> nonneg_finite x = true.
Proof. destruct x as [[] | [] | | [] m e]; cbn; tauto. Qed.

Lemma duration_small (t0 t1 : float) (number : Z) :
  reading_ok t0 = true -> reading_ok t1 = true -> SFleb t0 t1 = true ->
  number = 1 \/ number = 20 ->
  small 1013
    (fdiv (fmul (fsub t1 t0) (float_of_int 1000)) (float_of_int number)).
Proof.
  intros H0 H1 Hle Hn.
  pose proof (fsub_small t0 t1 H0 H1 Hle) as Hs.
  assert (Hk : small 10 (float_of_int 1000)) by (vm_compute; split; discriminate).
  pose proof (fmul_small 1001 10 _ _ Hs Hk ltac:(lia)) as Hm.
  change (1001 + 10 + 1) with 1012 in Hm.
  destruct Hn as [-> | ->].
  - change (float_of_int 1) with (S754_finite false 4503599627370496 (-52)).
    apply (fdiv_small 1012); [exact Hm | reflexivity | lia | lia].
  - change (float_of_int 20) with (S754_finite false 5629499534213120 (-48)).
    apply (fdiv_small 1012); [exact Hm | reflexivity | lia | lia].
Qed.


Section Properties.
Context {RS : RandomSource}.
Local Open Scope list_scope.

(** ** [rand_label] *)

Lemma floor_scaled_range (m : Z) :
  0 <= m < 2 ^ 53 -> 0 <= floor_scaled m 4 < 4.
Proof.
  intros Hm. unfold floor_scaled. split.
  - apply Z.div_pos; lia.
  - apply Z.div_lt_upper_bound; lia.
Qed.

Lemma getitem_IXYZ {S} (i : Z) (s : S) :
  0 <= i < 4 ->
  exists x, getitem "IXYZ" i s = Returns x s /\ pauli_item x.
Proof.
  intros Hi.
  assert (Hc : i = 0 \/ i = 1 \/ i = 2 \/ i = 3) by lia.
  destruct Hc as [-> | [-> | [-> | ->]]];
    (eexists; split; [reflexivity | eexists; split; reflexivity]).
Qed.

Lemma choices_loop_returns (count : nat) :
  forall s, exists chars s',
    choices_loop "IXYZ" count s = Returns chars s'
    /\ List.length chars = count /\ Forall pauli_item chars.
Proof.
  induction count as [| c IH]; intros s.
  - exists [], s. repeat split. constructor.
  - cbn [choices_loop]. unfold bind at 1. unfold random.
    pose proof (random53_range s) as Hr.
    destruct (random53 s) as [m s1]. cbn [fst] in Hr.
    change (Z.of_nat (String.length "IXYZ")) with 4.
    destruct (getitem_IXYZ (floor_scaled m 4) s1 (floor_scaled_range m Hr))
      as (x & Hx & Hitem).
    unfold bind at 1. rewrite Hx.
    destruct (IH s1) as (chars & s2 & Hrun & Hlen & Hall).
    unfold bind. rewrite Hrun.
    exists (x :: chars), s2. repeat split.
    + cbn. now rewrite Hlen.
    + now constructor.
Qed.

Lemma join_items (chars : list string) :
  Forall pauli_item chars ->
  String.length (join "" chars) = List.length chars
  /\ all_chars pauli_char (join "" chars) = true.
Proof.
  unfold join. induction 1 as [| x rest (c & -> & Hc) Hrest [IHlen IHall]].
  - split; reflexivity.
  - destruct rest as [| y rest'].
    + cbn. rewrite Hc. split; reflexivity.
    + change (String.concat "" (String c "" :: y :: rest'))
        with (String c (String.concat "" (y :: rest'))).
      cbn [String.length all_chars]. rewrite IHlen, IHall, Hc.
      split; reflexivity.
Qed.

Lemma comprehension_returns {A} (P : A -> Prop) (body : M rng_state A) :
  (forall s, exists a s', body s = Returns a s' /\ P a) ->
  forall count s, exists l s',
    comprehension count body s = Returns l s'
    /\ List.length l = count /\ Forall P l.
Proof.
  intros Hbody. induction count as [| c IH]; intros s.
  - exists [], s. repeat split. constructor.
  - cbn [comprehension]. unfold bind.
    destruct (Hbody s) as (a & s1 & -> & Ha).
    destruct (IH s1) as (l & s2 & -> & Hlen & Hall).
    exists (a :: l), s2. repeat split.
    + cbn. now rewrite Hlen.
    + now constructor.
Qed.

Lemma choices_in_range (population : string) (k : Z) :
  ssize_t_min <= k -> choices population k = choices_loop population (Z.to_nat k).
Proof.
  intros Hk. unfold choices.
  destruct (Z.ltb_spec k ssize_t_min); [lia | reflexivity].
Qed.

Lemma choices_overflow (population : string) (k : Z) (s : rng_state) :
  k < ssize_t_min -> choices population k s = Raises OverflowError s.
Proof.
  intros Hk. unfold choices.
  destruct (Z.ltb_spec k ssize_t_min); [reflexivity | lia].
Qed.

Lemma rand_label_returns (k n : Z) (s : rng_state) :
  ssize_t_min <= k ->
  exists labels s',
    rand_label k n s = Returns labels s'
    /\ List.length labels = Z.to_nat n
    /\ Forall (label_of_length k) labels.
Proof.
  intros Hk. unfold rand_label. rewrite choices_in_range by exact Hk.
  apply comprehension_returns.
  intros s0. unfold bind.
  destruct (choices_loop_returns (Z.to_nat k) s0) as (chars & s1 & -> & Hlen & Hall).
  exists (join "" chars), s1. split; [reflexivity |].
  destruct (join_items chars Hall) as [Hl Hc].
  split; [congruence | exact Hc].
Qed.

Lemma rand_label_labels_of (k n : Z) (s : rng_state) :
  ssize_t_min <= k ->
  rand_label k n s = Returns (labels_of k n s) (rng_after k n s).
Proof.
  intros Hk. unfold labels_of, rng_after.
  destruct (rand_label_returns k n s Hk) as (labels & s' & -> & _).
  reflexivity.
Qed.

Lemma labels_of_shape (k n : Z) (s : rng_state) :
  ssize_t_min <= k ->
  List.length (labels_of k n s) = Z.to_nat n
  /\ Forall (label_of_length k) (labels_of k n s).
Proof.
  intros Hk.
  destruct (rand_label_returns k n s Hk) as (labels & s' & Hrun & Hlen & Hall).
  rewrite rand_label_labels_of in Hrun by exact Hk. injection Hrun as -> _.
  now split.
Qed.

(** For positive [k] and [n] the batch is one the library accepts. *)
Lemma labels_of_pauli_batch (k n : Z) (s : rng_state) :
  0 < k -> 0 < n -> pauli_batch (labels_of k n s) = true.
Proof.
  intros Hk Hn.
  destruct (labels_of_shape k n s ltac:(unfold ssize_t_min; lia)) as [Hlen Hall].
  destruct (labels_of k n s) as [| l rest].
  - cbn in Hlen. lia.
  - unfold pauli_batch.
    assert (Hl : String.length l = Z.to_nat k)
      by (inversion Hall as [| ? ? [Hl _] _]; exact Hl).
    rewrite Hl. apply andb_true_iff. split.
    + apply Nat.ltb_lt. lia.
    + apply forallb_forall. intros x Hx.
      rewrite Forall_forall in Hall. destruct (Hall x Hx) as [Hxl Hxc].
      unfold pauli_label. rewrite Hxl, Nat.eqb_refl, Hxc. reflexivity.
Qed.

(** ** The shape of what [rand_label] returns *)




Lemma comprehension_constant {A} (a : A) (body : M rng_state A) :
  (forall s, body s = Returns a s) ->
  forall count s, comprehension count body s = Returns (repeat a count) s.
Proof.
  intros Hbody. induction count as [| c IH]; intros s.
  - reflexivity.
  - cbn [comprehension repeat]. unfold bind. rewrite Hbody, IH. reflexivity.
Qed.

(** C9 (amended).  With [n <= 0], [rand_label] returns the empty list
    whatever [k] is.  With [n > 0] and [- 2 ^ 63 <= k <= 0] it returns a
    list of [n] empty strings.  In both cases nothing is raised and
    nothing is drawn from the generator.  With [n > 0] and
    [k < - 2 ^ 63] it raises [OverflowError]: the count does not fit the
    machine-size integer [repeat(None, k)] converts it to. *)
Theorem rand_label_nonpositive (k n : Z) (s : rng_state) :
  (n <= 0 -> rand_label k n s = Returns [] s)
  /\ (0 < n -> - 2 ^ 63 <= k <= 0 ->
      rand_label k n s = Returns (repeat EmptyString (Z.to_nat n)) s)
  /\ (0 < n -> k < - 2 ^ 63 ->
      rand_label k n s = Raises OverflowError s).
Proof.
  unfold rand_label. repeat split.
  - intros Hn. replace (Z.to_nat n) with 0%nat by lia. reflexivity.
  - intros Hn Hk. apply comprehension_constant. intros s0.
    rewrite choices_in_range by (unfold ssize_t_min; lia).
    replace (Z.to_nat k) with 0%nat by lia. reflexivity.
  - intros Hn Hk.
    destruct (Z.to_nat n) as [| c] eqn:En; [lia |].
    cbn [comprehension]. unfold bind.
    rewrite choices_overflow by (unfold ssize_t_min; lia). reflexivity.
Qed.

(** ** The timed statement and [timeit] *)

Context {QI : QuantumInfo}.
Variable perf_counter : nat -> float.
Variable float_repr : float -> string.

Lemma with_rng_rand_label (k n : Z) (w : World) :
  ssize_t_min <= k ->
  with_rng (rand_label k n) w
  = Returns (labels_of k n (rng w))
      {| rng := rng_after k n (rng w); ticks := ticks w; trace := trace w |}.
Proof.
  intros Hk. unfold with_rng. rewrite rand_label_labels_of by exact Hk.
  reflexivity.
Qed.

Lemma stmt_returns (label : list string) (w : World) :
  pauli_batch label = true ->
  stmt label w
  = Returns tt {| rng := rng w; ticks := ticks w;
                  trace := trace w ++ statement_events label |}.
Proof.
  intros Hok.
  destruct (accepts_pauli_batch label Hok) as (p & o & o' & Hp & Ho & Ho').
  unfold stmt, library, bind, log, ret.
  rewrite Hp. cbn [rng ticks trace]. rewrite Ho. cbn [rng ticks trace].
  rewrite Ho'. cbn [rng ticks trace].
  unfold statement_events. rewrite <- !app_assoc. reflexivity.
Qed.

Lemma repeat_stmt_returns (label : list string) (count : nat) :
  pauli_batch label = true ->
  forall w,
    repeat_stmt count (stmt label) w
    = Returns tt {| rng := rng w; ticks := ticks w;
                    trace := trace w ++ repeated_events count label |}.
Proof.
  intros Hok. induction count as [| c IH]; intros w.
  - cbn. rewrite app_nil_r. destruct w; reflexivity.
  - cbn [repeat_stmt repeated_events]. unfold bind.
    rewrite (stmt_returns label w Hok), IH. cbn [rng ticks trace].
    rewrite <- app_assoc. reflexivity.
Qed.

Lemma timeit_returns (label : list string) (number : Z) (w : World) :
  pauli_batch label = true ->
  timeit perf_counter (stmt label) number w
  = Returns (fsub (perf_counter (S (ticks w))) (perf_counter (ticks w)))
      {| rng := rng w; ticks := S (S (ticks w));
         trace := trace w
                  ++ Timer (perf_counter (ticks w))
                  :: repeated_events (Z.to_nat number) label
                  ++ [Timer (perf_counter (S (ticks w)))] |}.
Proof.
  intros Hok. unfold timeit, bind, timer at 1.
  rewrite (repeat_stmt_returns label (Z.to_nat number) Hok).
  unfold timer, ret. cbn [rng ticks trace].
  rewrite <- !app_assoc. reflexivity.
Qed.

(** ** One trial *)

Lemma trial_returns (k n : Z) (times : list float) (w : World) :
  0 < k -> 0 < n ->
  trial perf_counter float_repr k n times w
  = Returns (times ++ [reported (first_sample perf_counter k n w)])
      {| rng := rng_after k n (rng w);
         ticks := S (S (ticks w));
         trace := trace w ++ sample_events float_repr (first_sample perf_counter k n w) |}.
Proof.
  intros Hk Hn. unfold trial. unfold bind at 1.
  rewrite with_rng_rand_label by (unfold ssize_t_min; lia).
  cbv zeta. unfold bind at 1.
  rewrite timeit_returns by (now apply labels_of_pauli_batch).
  cbn [rng ticks trace]. unfold bind, print, log, ret.
  cbn [rng ticks trace].
  unfold sample_events, reported, line, first_sample.
  cbn [at_k at_n batch number_of t_start t_stop].
  repeat first [rewrite <- app_assoc | progress cbn [app]]. reflexivity.
Qed.

(** ** The two loops *)

Lemma for_each_app {S A B} (xs ys : list A) (body : A -> B -> M S B) :
  forall acc s,
    for_each (xs ++ ys) body acc s
    = (acc' <- for_each xs body acc ;; for_each ys body acc') s.
Proof.
  induction xs as [| x xs IH]; intros acc s.
  - reflexivity.
  - cbn [for_each app]. unfold bind.
    destruct (body x acc s) as [acc' s' | e s']; [| reflexivity].
    rewrite IH. reflexivity.
Qed.

Lemma for_each_map {S A A' B} (f : A -> A') (xs : list A)
      (body : A' -> B -> M S B) :
  forall acc s,
    for_each (map f xs) body acc s = for_each xs (fun x => body (f x)) acc s.
Proof.
  induction xs as [| x xs IH]; intros acc s.
  - reflexivity.
  - cbn [for_each map]. unfold bind.
    destruct (body (f x) acc s); [apply IH | reflexivity].
Qed.

(** Two nested loops run their body over the pairs of [list_prod], in
    that order. *)
Lemma for_each_nested {S A A' B} (xs : list A) (ys : list A')
      (body : A -> A' -> B -> M S B) :
  forall acc s,
    for_each xs (fun x acc => for_each ys (body x) acc) acc s
    = for_each (list_prod xs ys) (fun p => body (fst p) (snd p)) acc s.
Proof.
  induction xs as [| x xs IH]; intros acc s.
  - reflexivity.
  - cbn [for_each list_prod]. rewrite for_each_app. unfold bind.
    rewrite for_each_map. cbn [fst snd].
    change (fun x0 : A' => body x x0) with (body x).
    destruct (for_each ys (body x) acc s); [apply IH | reflexivity].
Qed.

Lemma trials_return (g : list (Z * Z)) :
  Forall positive_pair g ->
  forall times w,
    for_each g (fun p => trial perf_counter float_repr (fst p) (snd p)) times w
    = Returns (times ++ map reported (plan perf_counter g (rng w) (ticks w)))
        {| rng := rng_at_end g (rng w);
           ticks := 2 * List.length g + ticks w;
           trace := trace w
                    ++ flat_map (sample_events float_repr)
                         (plan perf_counter g (rng w) (ticks w)) |}.
Proof.
  induction 1 as [| [k n] rest [Hk Hn] Hrest IH]; intros times w.
  - cbn. rewrite !app_nil_r. destruct w; reflexivity.
  - cbn [for_each fst snd]. unfold bind.
    cbn [fst snd] in Hk, Hn.
    rewrite (trial_returns k n times w Hk Hn), IH.
    cbn [rng ticks trace plan rng_at_end map flat_map List.length].
    unfold first_sample. rewrite <- !app_assoc. cbn [app].
    f_equal. f_equal. lia.
Qed.

Lemma grid_positive : Forall positive_pair grid.
Proof. repeat constructor. Qed.

Lemma run_benchmarks_returns :
  run_benchmarks perf_counter float_repr start
  = Returns (map reported (plan perf_counter grid (seed 123) 0))
      {| rng := rng_at_end grid (seed 123);
         ticks := 24;
         trace := flat_map (sample_events float_repr)
                    (plan perf_counter grid (seed 123) 0) |}.
Proof.
  unfold run_benchmarks. cbv zeta. rewrite for_each_nested.
  change (list_prod [10; 100] [10; 100; 1000; 5000; 10000; 100000]) with grid.
  rewrite (trials_return grid grid_positive [] start).
  reflexivity.
Qed.

(** ** What one trial does *)

Lemma constructed_app (a b : list event) :
  constructed (a ++ b) = constructed a ++ constructed b.
Proof.
  induction a as [| e a IH]; [reflexivity |].
  destruct e; cbn [constructed app]; rewrite IH; reflexivity.
Qed.

Lemma printed_app (a b : list event) :
  printed (a ++ b) = printed a ++ printed b.
Proof.
  induction a as [| e a IH]; [reflexivity |].
  destruct e; cbn [printed app]; rewrite IH; reflexivity.
Qed.

Lemma constructed_repeated (count : nat) (label : list string) :
  constructed (repeated_events count label) = repeat label count.
Proof.
  induction count as [| c IH]; [reflexivity |].
  cbn [repeated_events statement_events app constructed repeat].
  now rewrite IH.
Qed.

Lemma printed_repeated (count : nat) (label : list string) :
  printed (repeated_events count label) = [].
Proof.
  induction count as [| c IH]; [reflexivity |].
  cbn [repeated_events statement_events app printed]. exact IH.
Qed.

Lemma constructed_sample (x : sample) :
  constructed (sample_events float_repr x)
  = repeat (batch x) (Z.to_nat (number_of x)).
Proof.
  unfold sample_events. cbn [constructed].
  rewrite constructed_app, constructed_repeated. cbn [constructed].
  apply app_nil_r.
Qed.

Lemma printed_sample (x : sample) :
  printed (sample_events float_repr x)
  = [line float_repr (at_k x) (at_n x) (reported x)].
Proof.
  unfold sample_events. cbn [printed].
  rewrite printed_app, printed_repeated. reflexivity.
Qed.

(** C3.  In a trial the timed statement is executed once when
    [n >= 10000] and twenty times when [n < 10000]: between the two
    readings of the timer the trace holds that many executions, whatever
    [k] is. *)
Theorem repetition_count_policy (k n : Z) (times : list float) (w : World) :
  0 < k -> 0 < n ->
  exists times' w' label t0 t1 out count,
    trial perf_counter float_repr k n times w = Returns times' w'
    /\ trace w' = trace w
                  ++ Timer t0 :: repeated_events count label
                  ++ [Timer t1; Print out]
    /\ (10000 <= n -> count = 1%nat)
    /\ (n < 10000 -> count = 20%nat).
Proof.
  intros Hk Hn. rewrite (trial_returns k n times w Hk Hn).
  do 7 eexists. split; [reflexivity |]. cbn [trace]. split.
  - unfold sample_events. reflexivity.
  - unfold first_sample. cbn [number_of].
    destruct (Z.leb_spec 10000 n); split; intros; (reflexivity || lia).
Qed.

(** C5 (amended).  The batch a trial generates is what every
    call of the constructor in that trial receives, and the constructor
    is called once per repetition: once when [n >= 10000], twenty times
    when [n < 10000].  The trial adds one duration to the result and
    nothing else. *)
Theorem batch_constructed_per_repetition
        (k n : Z) (times : list float) (w : World) :
  0 < k -> 0 < n ->
  exists label s' d w' evs,
    rand_label k n (rng w) = Returns label s'
    /\ trial perf_counter float_repr k n times w = Returns (times ++ [d]) w'
    /\ trace w' = trace w ++ evs
    /\ constructed evs = repeat label (if 10000 <=? n then 1%nat else 20%nat).
Proof.
  intros Hk Hn.
  exists (labels_of k n (rng w)), (rng_after k n (rng w)).
  rewrite (trial_returns k n times w Hk Hn).
  do 3 eexists.
  split; [apply rand_label_labels_of; unfold ssize_t_min; lia |].
  split; [reflexivity |]. cbn [trace]. split; [reflexivity |].
  rewrite constructed_sample. unfold first_sample. cbn [batch number_of].
  destruct (10000 <=? n); reflexivity.
Qed.

(** C6.  The duration a trial reports is the difference of the two
    readings of the timer that enclose all its repetitions (each one the
    construction followed by [simplify]), times one thousand, divided by
    the number of repetitions. *)
Theorem reported_duration (k n : Z) (times : list float) (w : World) :
  0 < k -> 0 < n ->
  exists label t0 t1 number out w',
    trial perf_counter float_repr k n times w
    = Returns
        (times ++ [fdiv (fmul (fsub t1 t0) (float_of_int 1000))
                        (float_of_int number)])
        w'
    /\ trace w' = trace w
                  ++ Timer t0 :: repeated_events (Z.to_nat number) label
                  ++ [Timer t1; Print out]
    /\ number = (if 10000 <=? n then 1 else 20).
Proof.
  intros Hk Hn. rewrite (trial_returns k n times w Hk Hn).
  exists (labels_of k n (rng w)), (perf_counter (ticks w)),
    (perf_counter (S (ticks w))), (if 10000 <=? n then 1 else 20).
  do 2 eexists. split; [reflexivity |]. split; reflexivity.
Qed.

(** ** What the whole run does *)

Lemma plan_keys (g : list (Z * Z)) :
  forall s tick,
    map (fun x => (at_k x, at_n x)) (plan perf_counter g s tick) = g.
Proof.
  induction g as [| [k n] g IH]; intros s tick; [reflexivity |].
  cbn [plan map at_k at_n]. now rewrite IH.
Qed.

Lemma printed_samples (xs : list sample) :
  printed (flat_map (sample_events float_repr) xs)
  = map (fun x => line float_repr (at_k x) (at_n x) (reported x)) xs.
Proof.
  induction xs as [| x xs IH]; [reflexivity |].
  cbn [flat_map map]. rewrite printed_app, printed_sample, IH. reflexivity.
Qed.

Lemma constructed_samples (xs : list sample) :
  constructed (flat_map (sample_events float_repr) xs)
  = flat_map (fun x => repeat (batch x) (Z.to_nat (number_of x))) xs.
Proof.
  induction xs as [| x xs IH]; [reflexivity |].
  cbn [flat_map]. rewrite constructed_app, constructed_sample, IH. reflexivity.
Qed.

Lemma constructed_plan (g : list (Z * Z)) :
  forall s tick,
    flat_map (fun x => repeat (batch x) (Z.to_nat (number_of x)))
      (plan perf_counter g s tick)
    = flat_map (fun p => repeat (fst p) (snd p))
        (combine (grid_batches g s)
           (map (fun p => Z.to_nat (if 10000 <=? snd p then 1 else 20)) g)).
Proof.
  induction g as [| [k n] g IH]; intros s tick; [reflexivity |].
  cbn [plan grid_batches map combine flat_map batch number_of fst snd].
  now rewrite IH.
Qed.

Lemma grid_batches_length (g : list (Z * Z)) :
  forall s, List.length (grid_batches g s) = List.length g.
Proof.
  induction g as [| [k n] g IH]; intros s; [reflexivity |].
  cbn [grid_batches List.length]. now rewrite IH.
Qed.

(** C2.  [run_benchmarks] returns twelve samples, one per trial, the
    trials being those of  k = 10 with n = 10, 100, 1000, 5000, 10000,
    100000 and then k = 100 with the same values of n, in that order; the
    run consists of exactly these trials. *)
Theorem run_benchmarks_samples :
  exists (samples : list sample) (w' : World),
    run_benchmarks perf_counter float_repr start
    = Returns (map reported samples) w'
    /\ List.length (map reported samples) = 12%nat
    /\ map (fun x => (at_k x, at_n x)) samples
       = [(10, 10); (10, 100); (10, 1000); (10, 5000); (10, 10000);
          (10, 100000); (100, 10); (100, 100); (100, 1000); (100, 5000);
          (100, 10000); (100, 100000)]
    /\ trace w' = flat_map (sample_events float_repr) samples.
Proof.
  rewrite run_benchmarks_returns. do 2 eexists.
  split; [reflexivity |]. split; [| split].
  - rewrite length_map.
    rewrite <- (length_map (fun x => (at_k x, at_n x))), plan_keys.
    reflexivity.
  - rewrite plan_keys. reflexivity.
  - reflexivity.
Qed.

Lemma lines_of_plan (g : list (Z * Z)) :
  forall s tick,
    map (fun x => line float_repr (at_k x) (at_n x) (reported x))
      (plan perf_counter g s tick)
    = map (fun p => line float_repr (fst (fst p)) (snd (fst p)) (snd p))
        (combine g (map reported (plan perf_counter g s tick))).
Proof.
  induction g as [| [k n] g IH]; intros s tick; [reflexivity |].
  cbn [plan map combine at_k at_n fst snd]. now rewrite IH.
Qed.

Lemma lines_of_keys (g : list (Z * Z)) (times : list float) :
  map (fun p => line float_repr (fst (fst p)) (snd (fst p)) (snd p))
    (combine g times)
  = map (fun p => ("k=" ++ fst (fst p) ++ ", n=" ++ snd (fst p) ++ ", "
                   ++ float_repr (snd p) ++ " ms")%string)
      (combine (map (fun p => (str_int (fst p), str_int (snd p))) g) times).
Proof.
  revert times. induction g as [| [k n] g IH]; intros [| t times];
    try reflexivity.
  cbn [map combine fst snd]. now rewrite IH.
Qed.

(** C7.  [run_benchmarks] prints one line per trial, in the order of the
    grid, each of the form [k=<k>, n=<n>, <duration> ms] with [k] and [n]
    in decimal and the duration as [repr] renders it. *)
Theorem run_benchmarks_prints :
  exists (times : list float) (w' : World),
    run_benchmarks perf_counter float_repr start = Returns times w'
    /\ List.length (printed (trace w')) = 12%nat
    /\ printed (trace w')
       = map (fun p => ("k=" ++ fst (fst p) ++ ", n=" ++ snd (fst p) ++ ", "
                        ++ float_repr (snd p) ++ " ms")%string)
           (combine
              [("10", "10"); ("10", "100"); ("10", "1000"); ("10", "5000");
               ("10", "10000"); ("10", "100000"); ("100", "10");
               ("100", "100"); ("100", "1000"); ("100", "5000");
               ("100", "10000"); ("100", "100000")]
              times).
Proof.
  rewrite run_benchmarks_returns. do 2 eexists.
  split; [reflexivity |]. cbn [trace].
  rewrite printed_samples. split.
  - rewrite length_map.
    rewrite <- (length_map (fun x => (at_k x, at_n x))), plan_keys.
    reflexivity.
  - rewrite lines_of_plan, lines_of_keys. reflexivity.
Qed.

(** C10.  The list [run_benchmarks] returns and the lines it prints
    agree position by position: the i-th line shows the i-th returned
    duration. *)
Theorem returned_matches_printed :
  exists (times : list float) (w' : World),
    run_benchmarks perf_counter float_repr start = Returns times w'
    /\ Forall2 (fun out t => exists k n, out = line float_repr k n t)
         (printed (trace w')) times.
Proof.
  rewrite run_benchmarks_returns. do 2 eexists.
  split; [reflexivity |]. cbn [trace]. rewrite printed_samples.
  generalize (plan perf_counter grid (seed 123) 0). intros xs.
  induction xs as [| x xs IH]; cbn [map]; constructor.
  - now exists (at_k x), (at_n x).
  - exact IH.
Qed.

Lemma plan_reported (g : list (Z * Z)) :
  forall s tick,
    (forall i, (tick <= i < tick + 2 * List.length g)%nat ->
               reading_ok (perf_counter i) = true) ->
    (forall i, (tick <= i < tick + 2 * List.length g - 1)%nat ->
               SFleb (perf_counter i) (perf_counter (S i)) = true) ->
    Forall (fun t => nonneg_finite t = true)
      (map reported (plan perf_counter g s tick)).
Proof.
  induction g as [| [k n] g IH]; intros s tick Hok Hmono; cbn [plan map].
  - constructor.
  - cbn [List.length] in Hok, Hmono. constructor.
    + unfold reported. cbn [t_start t_stop number_of].
      apply (small_nonneg_finite 1013). apply duration_small.
      * apply Hok. lia.
      * apply Hok. lia.
      * apply Hmono. lia.
      * destruct (10000 <=? n); [now left | now right].
    + apply IH; intros i Hi; [apply Hok | apply Hmono]; lia.
Qed.

(** C8.  With a timer whose twenty-four readings are binary64 values,
    zero or positive, below [2 ^ 1000] seconds, and never decreasing,
    every duration [run_benchmarks] returns is zero or a positive finite
    float, and these are the durations its lines show. *)
Theorem reported_durations_nonneg_finite :
  (forall i, (i < 24)%nat -> reading_ok (perf_counter i) = true) ->
  (forall i, (i < 23)%nat ->
             SFleb (perf_counter i) (perf_counter (S i)) = true) ->
  exists (times : list float) (w' : World),
    run_benchmarks perf_counter float_repr start = Returns times w'
    /\ Forall (fun t => nonneg_finite t = true) times
    /\ Forall2 (fun out t => exists k n, out = line float_repr k n t)
         (printed (trace w')) times.
Proof.
  intros Hok Hmono. rewrite run_benchmarks_returns. do 2 eexists.
  split; [reflexivity |]. split.
  - apply plan_reported; intros i Hi; [apply Hok | apply Hmono];
      cbn [grid List.length] in Hi; lia.
  - cbn [trace]. rewrite printed_samples.
    generalize (plan perf_counter grid (seed 123) 0). intros xs.
    induction xs as [| x xs IH]; cbn [map]; constructor.
    + now exists (at_k x), (at_n x).
    + exact IH.
Qed.

(** ** Further properties of the run *)

(** X1.  A run reads the timer twenty-four times, twice per trial. *)
Theorem run_benchmarks_reads_timer :
  exists (times : list float) (w' : World),
    run_benchmarks perf_counter float_repr start = Returns times w'
    /\ ticks w' = 24%nat.
Proof.
  rewrite run_benchmarks_returns. do 2 eexists. split; reflexivity.
Qed.

(** ** [rand_label] in terms of the draws it makes *)

Lemma getitem_letter {S} (m : Z) (s : S) :
  0 <= m < 2 ^ 53 ->
  getitem "IXYZ" (floor_scaled m 4) s = Returns (String (letter m) EmptyString) s.
Proof.
  intros Hm. unfold floor_scaled, letter.
  pose proof (Z.mul_div_le (m * 4) (2 ^ 53) ltac:(lia)) as Hlo.
  pose proof (Z.mul_succ_div_gt (m * 4) (2 ^ 53) ltac:(lia)) as Hhi.
  set (q := m * 4 / 2 ^ 53) in *.
  change (2 ^ 53) with (4 * 2 ^ 51) in Hm, Hlo, Hhi.
  change (2 ^ 52) with (2 * 2 ^ 51).
  assert (Hq : q = 0 \/ q = 1 \/ q = 2 \/ q = 3) by lia.
  destruct (Z.ltb_spec m (2 ^ 51)); [| destruct (Z.ltb_spec m (2 * 2 ^ 51));
    [| destruct (Z.ltb_spec m (3 * 2 ^ 51))]];
    destruct Hq as [-> | [-> | [-> | ->]]]; try lia; reflexivity.
Qed.

Lemma choices_loop_draws (count : nat) :
  forall s,
    choices_loop "IXYZ" count s
    = Returns (map (fun m => String (letter m) EmptyString) (draws count s))
        (after_draws count s).
Proof.
  induction count as [| c IH]; intros s; [reflexivity |].
  cbn [choices_loop draws after_draws map]. unfold bind at 1. unfold random.
  pose proof (random53_range s) as Hr.
  destruct (random53 s) as [m s1]. cbn [fst snd] in *.
  change (Z.of_nat (String.length "IXYZ")) with 4.
  unfold bind at 1. rewrite (getitem_letter m s1 Hr).
  unfold bind. rewrite IH. reflexivity.
Qed.

Lemma join_letters (ms : list Z) :
  join "" (map (fun m => String (letter m) EmptyString) ms)
  = string_of_list_ascii (map letter ms).
Proof.
  unfold join. induction ms as [| m ms IH]; [reflexivity |].
  destruct ms as [| m' ms']; [reflexivity |].
  change (String.concat "" (map (fun m => String (letter m) EmptyString) (m :: m' :: ms')))
    with (String (letter m)
            (String.concat "" (map (fun m => String (letter m) EmptyString) (m' :: ms')))).
  rewrite IH. reflexivity.
Qed.

Lemma append_empty_r (x : string) : (x ++ "")%string = x.
Proof. induction x as [| c x IH]; cbn; congruence. Qed.

Lemma join_cons (x : string) (xs : list string) :
  join "" (x :: xs) = (x ++ join "" xs)%string.
Proof.
  unfold join. destruct xs as [| y ys]; cbn [String.concat].
  - now rewrite append_empty_r.
  - reflexivity.
Qed.

Lemma string_of_list_ascii_append (a b : list ascii) :
  string_of_list_ascii (a ++ b)
  = (string_of_list_ascii a ++ string_of_list_ascii b)%string.
Proof. induction a as [| c a IH]; cbn; congruence. Qed.

Lemma draws_add (a b : nat) :
  forall s, draws (a + b) s = draws a s ++ draws b (after_draws a s).
Proof.
  induction a as [| a IH]; intros s; [reflexivity |].
  cbn [Nat.add draws after_draws app]. now rewrite IH.
Qed.

Lemma after_draws_add (a b : nat) :
  forall s, after_draws (a + b) s = after_draws b (after_draws a s).
Proof.
  induction a as [| a IH]; intros s; [reflexivity |].
  cbn [Nat.add after_draws]. apply IH.
Qed.

(** The loop of [rand_label] over [nn] labels of [kk] letters. *)
Lemma comprehension_draws (kk nn : nat) :
  forall s, exists labels,
    comprehension nn (chars <- choices_loop "IXYZ" kk ;; ret (join "" chars)) s
    = Returns labels (after_draws (nn * kk) s)
    /\ join "" labels = string_of_list_ascii (map letter (draws (nn * kk) s)).
Proof.
  set (body := chars <- choices_loop "IXYZ" kk ;; ret (join "" chars)).
  assert (Hbody : forall s0,
             body s0 = Returns (join "" (map (fun m => String (letter m) EmptyString)
                                            (draws kk s0)))
                         (after_draws kk s0)).
  { intros s0. unfold body, bind. rewrite choices_loop_draws. reflexivity. }
  clearbody body.
  induction nn as [| c IH]; intros s.
  - exists []. split; reflexivity.
  - cbn [comprehension Nat.mul]. unfold bind. rewrite Hbody.
    destruct (IH (after_draws kk s)) as (rest & Hrun & Hjoin).
    rewrite Hrun. eexists. split.
    + rewrite after_draws_add. reflexivity.
    + rewrite join_cons, join_letters, Hjoin, draws_add, map_app,
        string_of_list_ascii_append. reflexivity.
Qed.

Lemma rng_after_draws (k n : Z) (s : rng_state) :
  ssize_t_min <= k ->
  rng_after k n s = after_draws (Z.to_nat n * Z.to_nat k) s.
Proof.
  intros Hk. unfold rng_after, rand_label. rewrite choices_in_range by exact Hk.
  destruct (comprehension_draws (Z.to_nat k) (Z.to_nat n) s) as (labels & -> & _).
  reflexivity.
Qed.




(** ** More about the whole run *)



Lemma draws_needed_nonneg (g : list (Z * Z)) :
  Forall positive_pair g -> 0 <= draws_needed g.
Proof.
  induction 1 as [| [k n] g [Hk Hn] _ IH]; cbn [draws_needed fst snd] in *; nia.
Qed.

Lemma rng_at_end_draws (g : list (Z * Z)) :
  Forall positive_pair g ->
  forall s, rng_at_end g s = after_draws (Z.to_nat (draws_needed g)) s.
Proof.
  induction 1 as [| [k n] g [Hk Hn] Hg IH]; intros s; [reflexivity |].
  cbn [rng_at_end draws_needed fst snd] in *.
  rewrite IH, rng_after_draws by (unfold ssize_t_min; lia).
  pose proof (draws_needed_nonneg g Hg) as Hd.
  rewrite Z2Nat.inj_add, Z2Nat.inj_mul by nia.
  rewrite after_draws_add. f_equal. f_equal. apply Nat.mul_comm.
Qed.

(** X6.  A run calls [random()] 12 772 100 times: it leaves the
    generator where that many draws from [random.seed(123)] leave it. *)
Theorem run_benchmarks_draws :
  exists (times : list float) (w' : World),
    run_benchmarks perf_counter float_repr start = Returns times w'
    /\ rng w' = after_draws (Z.to_nat 12772100) (seed 123).
Proof.
  rewrite run_benchmarks_returns. do 2 eexists.
  split; [reflexivity |]. cbn [rng].
  rewrite (rng_at_end_draws grid grid_positive).
  assert (E : draws_needed grid = 12772100) by reflexivity.
  rewrite E. reflexivity.
Qed.

Lemma plan_batches (g : list (Z * Z)) :
  Forall positive_pair g ->
  forall s tick,
    Forall (fun x => pauli_batch (batch x) = true) (plan perf_counter g s tick).
Proof.
  induction 1 as [| [k n] g [Hk Hn] _ IH]; intros s tick; cbn [plan].
  - constructor.
  - constructor; [| apply IH]. cbn [batch]. now apply labels_of_pauli_batch.
Qed.

(** X7.  Whatever a run hands to [PauliList] is well formed: the batch
    is not empty, its labels have one and the same positive length, and
    they are written in the letters I, X, Y and Z. *)
Theorem run_benchmarks_constructs_pauli_batches :
  exists (times : list float) (w' : World),
    run_benchmarks perf_counter float_repr start = Returns times w'
    /\ Forall (fun labels => pauli_batch labels = true) (constructed (trace w')).
Proof.
  rewrite run_benchmarks_returns. do 2 eexists.
  split; [reflexivity |]. cbn [trace]. rewrite constructed_samples.
  apply Forall_flat_map.
  apply (Forall_impl _ (P := fun x => pauli_batch (batch x) = true)).
  - intros x Hx. apply Forall_forall. intros b Hb.
    apply repeat_spec in Hb. now subst b.
  - apply plan_batches, grid_positive.
Qed.

Lemma fsub_self (t : float) :
  is_finite t = true -> fsub t t = S754_zero false.
Proof.
  destruct t as [[] | [] | | s m e]; try discriminate; intros _;
    try reflexivity.
  unfold fsub. cbn [SFsub]. cbv zeta. rewrite Z.min_id.
  unfold shl_align. rewrite !Z.sub_diag. reflexivity.
Qed.

(** X8.  When the two readings of a trial coincide (the statement ran
    faster than the timer ticks) and the reading is a finite number, the
    trial reports [+0.0]: it is appended to the result and shown in the
    printed line. *)
Theorem zero_elapsed_reports_zero (k n : Z) (times : list float) (w : World) :
  0 < k -> 0 < n ->
  perf_counter (S (ticks w)) = perf_counter (ticks w) ->
  is_finite (perf_counter (ticks w)) = true ->
  exists w',
    trial perf_counter float_repr k n times w
    = Returns (times ++ [S754_zero false]) w'
    /\ printed (trace w')
       = printed (trace w) ++ [line float_repr k n (S754_zero false)].
Proof.
  intros Hk Hn Hsame Hfin. rewrite (trial_returns k n times w Hk Hn).
  assert (Hzero : reported (first_sample perf_counter k n w) = S754_zero false).
  { unfold reported, first_sample. cbn [t_start t_stop number_of].
    rewrite Hsame, (fsub_self _ Hfin). destruct (10000 <=? n); reflexivity. }
  eexists. split.
  - rewrite Hzero. reflexivity.
  - cbn [trace]. rewrite printed_app, printed_sample, Hzero. reflexivity.
Qed.

End Properties.

(** ** Two runs *)

(** C4.  The batches of a run are fixed by the seed: there are twelve
    batches, determined before any timer or library is chosen, such that
    every run started from [random.seed(123)] hands exactly these to the
    constructor, each as often as its trial repeats.  Two runs therefore
    generate the same labels at every grid position, and leave the
    generator in the same state. *)
Theorem labels_fixed_by_seed {RS : RandomSource} :
  exists batches : list (list string),
    List.length batches = 12%nat
    /\ forall (QI1 QI2 : QuantumInfo) (timer1 timer2 : nat -> float)
              (repr1 repr2 : float -> string),
       exists times1 w1 times2 w2,
         @run_benchmarks RS QI1 timer1 repr1 start = Returns times1 w1
         /\ @run_benchmarks RS QI2 timer2 repr2 start = Returns times2 w2
         /\ constructed (trace w1)
            = flat_map (fun p => repeat (fst p) (snd p))
                (combine batches [20; 20; 20; 20; 1; 1; 20; 20; 20; 20; 1; 1]%nat)
         /\ constructed (trace w2) = constructed (trace w1)
         /\ rng w2 = rng w1.
Proof.
  exists (grid_batches grid (seed 123)). split.
  - apply grid_batches_length.
  - intros QI1 QI2 timer1 timer2 repr1 repr2.
    rewrite !run_benchmarks_returns. do 4 eexists.
    split; [reflexivity |]. split; [reflexivity |]. cbn [trace rng].
    rewrite !constructed_samples, !constructed_plan.
    repeat split; reflexivity.
Qed.

(** * Concrete instances *)


(** The first trial of the grid, in the concrete surroundings. *)
Lemma repetition_count_policy_witness :
  exists times' w' label t0 t1 out count,
    @trial lcg checked_library steady_clock bits_repr 10 10 [] (@start lcg)
    = Returns times' w'
    /\ trace w' = (trace (@start lcg)
                   ++ Timer t0 :: repeated_events count label
                   ++ [Timer t1; Print out])%list
    /\ (10000 <= 10 -> count = 1%nat)
    /\ (10 < 10000 -> count = 20%nat).
Proof.
  apply (@repetition_count_policy lcg checked_library steady_clock bits_repr
           10 10 [] (@start lcg)); lia.
Defined.

(** A trial that repeats once. *)
Lemma batch_constructed_per_repetition_witness :
  exists label s' d w' evs,
    @rand_label lcg 2 10000 (rng (@start lcg)) = Returns label s'
    /\ @trial lcg checked_library steady_clock bits_repr 2 10000 [] (@start lcg)
       = Returns ([] ++ [d])%list w'
    /\ trace w' = (trace (@start lcg) ++ evs)%list
    /\ constructed evs = repeat label (if 10000 <=? 10000 then 1%nat else 20%nat).
Proof.
  apply (@batch_constructed_per_repetition lcg checked_library steady_clock
           bits_repr 2 10000 [] (@start lcg)); lia.
Defined.

(** A trial in the middle of a run. *)
Lemma reported_duration_witness :
  exists label t0 t1 number out w',
    @trial lcg checked_library steady_clock bits_repr 100 5000
      [float_of_int 7] (@start lcg)
    = Returns
        ([float_of_int 7]
           ++ [fdiv (fmul (fsub t1 t0) (float_of_int 1000))
                    (float_of_int number)])%list
        w'
    /\ trace w' = (trace (@start lcg)
                   ++ Timer t0 :: repeated_events (Z.to_nat number) label
                   ++ [Timer t1; Print out])%list
    /\ number = (if 10000 <=? 5000 then 1 else 20).
Proof.
  apply (@reported_duration lcg checked_library steady_clock bits_repr
           100 5000 [float_of_int 7] (@start lcg)); lia.
Defined.

(** A run timed by [steady_clock]. *)
Lemma reported_durations_nonneg_finite_witness :
  exists (times : list float) (w' : World),
    @run_benchmarks lcg checked_library steady_clock bits_repr (@start lcg)
    = Returns times w'
    /\ Forall (fun t => nonneg_finite t = true) times
    /\ Forall2 (fun out t => exists k n, out = line bits_repr k n t)
         (printed (trace w')) times.
Proof.
  apply (@reported_durations_nonneg_finite lcg checked_library steady_clock
           bits_repr);
    intros i Hi; do 24 (destruct i as [| i]; [reflexivity |]); lia.
Defined.

(** C5 as stated fails: the first trial of the grid (k = 10, n = 10)
    returns, and the one batch it generated has been handed to the
    constructor twenty times, not once. *)
Lemma batch_constructed_twenty_times :
  match @trial lcg checked_library steady_clock bits_repr 10 10 [] (@start lcg) with
  | Returns _ w' =>
      constructed (trace w') = repeat (@labels_of lcg 10 10 (@seed lcg 123)) 20
      /\ constructed (trace w') <> [@labels_of lcg 10 10 (@seed lcg 123)]
  | Raises _ _ => False
  end.
Proof.
  vm_compute. split; [reflexivity | discriminate].
Qed.



(** A timer that stands still. *)
Lemma zero_elapsed_reports_zero_witness :
  exists w',
    @trial lcg checked_library (fun _ => float_of_int 5) bits_repr 2 3 []
      (@start lcg)
    = Returns ([] ++ [S754_zero false])%list w'
    /\ printed (trace w')
       = (printed (trace (@start lcg))
          ++ [line bits_repr 2 3 (S754_zero false)])%list.
Proof.
  apply (@zero_elapsed_reports_zero lcg checked_library
           (fun _ => float_of_int 5) bits_repr 2 3 [] (@start lcg));
    (lia || reflexivity).
Defined.


(** Non-positive arguments, in and below the range of the count. *)
Lemma rand_label_nonpositive_witness :
  @rand_label lcg 7 (-2) (@seed lcg 123) = Returns [] (@seed lcg 123)
  /\ @rand_label lcg (-3) 2 (@seed lcg 123)
     = Returns (repeat EmptyString (Z.to_nat 2)) (@seed lcg 123)
  /\ @rand_label lcg (- 2 ^ 63 - 1) 2 (@seed lcg 123)
     = Raises OverflowError (@seed lcg 123).
Proof.
  split; [| split].
  - apply (proj1 (@rand_label_nonpositive lcg 7 (-2) (@seed lcg 123))). lia.
  - apply (proj1 (proj2 (@rand_label_nonpositive lcg (-3) 2 (@seed lcg 123))));
      lia.
  - apply (proj2 (proj2 (@rand_label_nonpositive lcg (- 2 ^ 63 - 1) 2
                           (@seed lcg 123)))); lia.
Defined.

(** C9 as stated fails: [rand_label(-2**64, 1)] does not return one empty
    string, it raises [OverflowError]. *)
Lemma rand_label_overflow :
  @rand_label lcg (- 2 ^ 64) 1 (@seed lcg 123)
  = Raises OverflowError (@seed lcg 123)
  /\ forall s', @rand_label lcg (- 2 ^ 64) 1 (@seed lcg 123)
                <> Returns [EmptyString] s'.
Proof.
  split; [reflexivity | intros s'; discriminate].
Qed.
